(** * Helper routines of the notebook [02-language-model.ipynb]

    A shallow embedding of the three local helpers of the notebook
    ([load_vectors], [condense_cigar], [tm_to_cigar]) together with the
    properties stated about them.

    Python strings are modelled as [string]; a one-character Python string
    (the value of [s[i]], or the loop variable of [for state in s]) is a
    [string] of length one or an [ascii], as noted at each use.  Python
    integers are unbounded, so the run counter is a [nat]. *)

From Stdlib Require Import Ascii DecimalString DecimalNat DecimalFacts.
From stdpp Require Import gmap strings list.

#[local] Arguments String.append : simpl nomatch.

(** ** Strings *)

Module Py.

(** [str(n)] for a non-negative integer: its decimal numeral. *)
Definition str (n : nat) : string :=
  NilEmpty.string_of_uint (Nat.to_uint n).

(** [s[i]] for [0 <= i < len(s)]: the one-character string at index [i].
    (Out of range Python raises; the loops below never index out of
    range.) *)
Definition index (s : string) (i : nat) : string :=
  String.substring i 1 s.

(** [range(n)]. *)
Definition range (n : nat) : list nat := seq 0 n.

(** The characters of a string, in iteration order. *)
Definition chars (s : string) : list ascii :=
  String.list_ascii_of_string s.

End Py.

(** ** [condense_cigar] *)

(** The three local variables of the loop. *)
Record cigar_vars := CigarVars {
  condensed_cigar : string;
  current_state : string;
  count : nat
}.

(** Values before the loop: [''], [''], [0]. *)
Definition cigar_init : cigar_vars :=
  {| condensed_cigar := ""; current_state := ""; count := 0 |}.

(** The loop body at index [i]. *)
Definition condense_body (cigar_str : string) (v : cigar_vars) (i : nat)
    : cigar_vars :=
  if String.eqb (Py.index cigar_str i) (current_state v) then
    {| condensed_cigar := condensed_cigar v;
       current_state := current_state v;
       count := count v + 1 |}
  else
    {| condensed_cigar :=
         if 0 <? count v
         then condensed_cigar v +:+ (Py.str (count v) +:+ current_state v)
         else condensed_cigar v;
       current_state := Py.index cigar_str i;
       count := 1 |}.

(** The statement after the loop and the returned value. *)
Definition condense_finish (v : cigar_vars) : string :=
  condensed_cigar v +:+ (Py.str (count v) +:+ current_state v).

Definition condense_cigar (cigar_str : string) : string :=
  condense_finish
    (foldl (condense_body cigar_str) cigar_init
           (Py.range (String.length cigar_str))).

(** ** [tm_to_cigar] *)

(** The loop body: one [if]/[elif]/[elif] without an [else]. *)
Definition tm_body (cigar : string) (state : ascii) : string :=
  if Ascii.eqb state ":"%char then cigar +:+ "M"
  else if Ascii.eqb state "1"%char then cigar +:+ "I"
  else if Ascii.eqb state "2"%char then cigar +:+ "D"
  else cigar.

(** The keyword parameter [condensed] is part of the signature and is never
    read by the body. *)
Definition tm_to_cigar (tm_alignment_string : string) (condensed : bool)
    : string :=
  foldl tm_body "" (Py.chars tm_alignment_string).

(** ** [load_vectors] *)

(** What escapes [load_vectors] when it raises: the [KeyError] of
    [data['embeddings']], the [TypeError] of iterating a 0-dimensional
    array, or an exception raised inside [np.load] or inside the
    constructor of [ProteinVector]. *)
Inductive load_exn (E : Type) :=
  | KeyError (field : string)
  | IterationOver0d
  | External (e : E).
Arguments KeyError {E} field.
Arguments IterationOver0d {E}.
Arguments External {E} e.

(** A stored array as [zip] sees it: a 0-dimensional array cannot be
    iterated, any other array yields its items along the first axis. *)
Inductive ndarray (Vector : Type) :=
  | ZeroDim
  | Items (items : list Vector).
Arguments ZeroDim {Vector}.
Arguments Items {Vector} items.

Section LoadVectors.

(** The items of the stored array, the sequence records, and the external
    class [ProteinVector]: its constructor validates its two arguments and
    either raises or returns an object. *)
Context {E Vector Sequence PVector : Type}.
Variable ProteinVector : Vector -> Sequence -> E + PVector.

(** [np.load]: raises, or returns the archive found at the path, a
    dictionary from field names to arrays. *)
Variable np_load : string -> E + gmap string (ndarray Vector).

(** The list comprehension over [zip(vectors, sequence_list)]: the pairs
    are taken by position until either side runs out, the constructor is
    called on each pair in order, and the first exception it raises ends
    the comprehension. *)
Fixpoint protein_vectors (vectors : list Vector) (sequence_list : list Sequence)
    : load_exn E + list PVector :=
  match vectors, sequence_list with
  | vector :: vectors', sequence :: sequence_list' =>
      match ProteinVector vector sequence with
      | inl e => inl (External e)
      | inr pv =>
          match protein_vectors vectors' sequence_list' with
          | inl e => inl e
          | inr pvs => inr (pv :: pvs)
          end
      end
  | _, _ => inr []
  end.

(** A left result is the exception that escapes the function.
    [sequence_list] is a list, as its annotation says. *)
Definition load_vectors (file_path : string) (sequence_list : list Sequence)
    : load_exn E + list PVector :=
  match np_load file_path with
  | inl e => inl (External e)
  | inr data =>
      match data !! "embeddings" with
      | None => inl (KeyError "embeddings")
      | Some ZeroDim => inl IterationOver0d
      | Some (Items vectors) => protein_vectors vectors sequence_list
      end
  end.

End LoadVectors.

(** ** Count-symbol tokens

    The vocabulary in which the properties of [condense_cigar] are stated:
    a token is a count and a symbol, a condensed string is the
    concatenation of the rendered tokens, and expanding a condensed string
    replaces each token by that many copies of its symbol.  None of this is
    code of the notebook. *)

Definition token : Type := nat * ascii.

Definition render_token (t : token) : string :=
  Py.str t.1 +:+ String t.2 "".

Fixpoint render (ts : list token) : string :=
  match ts with
  | [] => ""
  | t :: ts' => render_token t +:+ render ts'
  end.

(** [n] copies of the symbol [c]. *)
Fixpoint copies (n : nat) (c : ascii) : string :=
  match n with
  | 0 => ""
  | S n' => String c (copies n' c)
  end.

Fixpoint expand_tokens (ts : list token) : string :=
  match ts with
  | [] => ""
  | t :: ts' => copies t.1 t.2 +:+ expand_tokens ts'
  end.

Definition total_count (ts : list token) : nat :=
  foldr (fun t n => t.1 + n) 0 ts.

(** No two neighbouring tokens carry the same symbol. *)
Fixpoint alternating (ts : list token) : Prop :=
  match ts with
  | t1 :: ((t2 :: _) as ts') => t1.2 <> t2.2 /\ alternating ts'
  | _ => True
  end.

(** Expansion read directly off a condensed string: a maximal run of digits
    is a count ([Ascii.is_nat] gives the value of a digit), the character
    after it is the symbol.  [acc] is the count
    read so far, [None] when no digit of the current token has been seen.
    A string that is not a sequence of count-symbol tokens (a symbol
    without a count, digits without a symbol) has no expansion. *)
Fixpoint expand_from (acc : option nat) (s : string) : option string :=
  match s with
  | EmptyString =>
      match acc with
      | None => Some EmptyString
      | Some _ => None
      end
  | String a s' =>
      match Ascii.is_nat a with
      | Some d => expand_from (Some (10 * default 0 acc + d)) s'
      | None =>
          match acc with
          | None => None
          | Some n => String.append (copies n a) <$> expand_from None s'
          end
      end
  end.

Definition expand_cigar (s : string) : option string :=
  expand_from None s.

(** The alphabets of the two helpers. *)
Definition is_cigar_symbol (a : ascii) : bool :=
  Ascii.eqb a "M"%char || Ascii.eqb a "I"%char || Ascii.eqb a "D"%char.

Definition is_tm_state (a : ascii) : bool :=
  Ascii.eqb a ":"%char || Ascii.eqb a "1"%char || Ascii.eqb a "2"%char.

Definition all_chars (p : ascii -> bool) (s : string) : bool :=
  forallb p (Py.chars s).

(** Removing from a string the characters that fail [p]. *)
Fixpoint keep (p : ascii -> bool) (s : string) : string :=
  match s with
  | EmptyString => EmptyString
  | String a s' => if p a then String a (keep p s') else keep p s'
  end.

(** ** The loops as recursions over the remaining input

    [condense_cigar] walks indices; the proofs use the same loop walking
    the characters that are left, and the list of runs it emits. *)

(** One iteration, given the character at the current index. *)
Definition condense_char (v : cigar_vars) (a : ascii) : cigar_vars :=
  if String.eqb (String a "") (current_state v) then
    {| condensed_cigar := condensed_cigar v;
       current_state := current_state v;
       count := count v + 1 |}
  else
    {| condensed_cigar :=
         if 0 <? count v
         then condensed_cigar v +:+ (Py.str (count v) +:+ current_state v)
         else condensed_cigar v;
       current_state := String a "";
       count := 1 |}.

Fixpoint condense_rest (v : cigar_vars) (s : string) : cigar_vars :=
  match s with
  | EmptyString => v
  | String a s' => condense_rest (condense_char v a) s'
  end.

(** The runs of [s] when a run of [n] copies of [c] is already open. *)
Fixpoint runs_from (c : ascii) (n : nat) (s : string) : list token :=
  match s with
  | EmptyString => [(n, c)]
  | String a s' =>
      if Ascii.eqb a c then runs_from c (S n) s'
      else (n, c) :: runs_from a 1 s'
  end.

Definition runs (s : string) : list token :=
  match s with
  | EmptyString => []
  | String c s' => runs_from c 1 s'
  end.

(** The character map of [tm_to_cigar], one input character at a time. *)
Definition tm_char (a : ascii) : string :=
  if Ascii.eqb a ":"%char then "M"
  else if Ascii.eqb a "1"%char then "I"
  else if Ascii.eqb a "2"%char then "D"
  else "".

Fixpoint tm_map (s : string) : string :=
  match s with
  | EmptyString => EmptyString
  | String a s' => tm_char a +:+ tm_map s'
  end.

(** ** [load_protein_t5_embedding]

    The tokenizer, the encoder model, the tensor operations and the class
    [ProteinEmbedding] are external; the function is embedded over them.
    What the function computes itself is the list [seqs] handed to the
    tokenizer. *)

(** [sep.join(parts)]. *)
Definition join (sep : string) (parts : list string) : string :=
  String.concat sep parts.

(** [list(s)]: the one-character strings of [s], in order. *)
Definition list_of_string (s : string) : list string :=
  (fun a => String a "") <$> Py.chars s.

(** The character class [[UZOB]]. *)
Definition is_UZOB (a : ascii) : bool :=
  Ascii.eqb a "U"%char || Ascii.eqb a "Z"%char ||
  Ascii.eqb a "O"%char || Ascii.eqb a "B"%char.

(** [re.sub(r"[UZOB]", "X", s)]: each character of the class is replaced
    by [X], every other character is kept. *)
Fixpoint re_sub_UZOB_X (s : string) : string :=
  match s with
  | EmptyString => EmptyString
  | String a s' =>
      String (if is_UZOB a then "X"%char else a) (re_sub_UZOB_X s')
  end.

(** [seq_list = []; seq_list.append(sequence)] followed by the list
    comprehension; [str(seq)] is the identity on a string. *)
Definition seqs (sequence : string) : list string :=
  (fun seq => join " " (list_of_string (re_sub_UZOB_X seq))) <$> [sequence].

(** The calls into the external libraries that matter for cost, in the
    order in which they are made. *)
Inductive call :=
  | TokenizerFromPretrained (name : string)
  | ModelFromPretrained (name : string)
  | BatchEncodePlus (batch : list string)
  | ModelForward.

(** A computation that may raise, with the external calls it made, oldest
    first (a call that raised is the last one of its log). *)
Definition traced (E A : Type) : Type := (E + A) * list call.

(** An external call that is logged. *)
Definition traced_call {E A : Type} (c : call) (r : E + A) : traced E A :=
  (r, [c]).

(** An external operation that is not logged. *)
Definition traced_op {E A : Type} (r : E + A) : traced E A := (r, []).

(** Sequencing: an exception in the first part skips the rest. *)
Definition traced_bind {E A B : Type} (m : traced E A) (k : A -> traced E B)
    : traced E B :=
  match m.1 with
  | inl e => (inl e, m.2)
  | inr a => ((k a).1, m.2 ++ (k a).2)
  end.

#[local] Notation "x <~ m ;; k" := (traced_bind m (fun x => k))
  (at level 100, m at next level, right associativity).

(** What a call of [next] on a generator does: it returns the value of a
    [yield], or raises [StopIteration], or lets an exception of the body
    escape. *)
Inductive outcome (E A : Type) :=
  | Yield (a : A)
  | StopIteration
  | Raise (e : E).
Arguments Yield {E A} a.
Arguments StopIteration {E A}.
Arguments Raise {E A} e.

Section Embeddings.

Context {E Tokenizer Model Ids Hidden Array PEmbedding Sequence : Type}.

(** [T5Tokenizer.from_pretrained], [T5EncoderModel.from_pretrained]. *)
Variable T5Tokenizer_from_pretrained : string -> E + Tokenizer.
Variable T5EncoderModel_from_pretrained : string -> E + Model.
(** [tokenizer.batch_encode_plus(seqs, add_special_tokens=True,
    padding="longest")]. *)
Variable batch_encode_plus : Tokenizer -> list string -> E + Ids.
(** [model(input_ids=torch.tensor(ids['input_ids']),
    attention_mask=torch.tensor(ids['attention_mask']))]. *)
Variable model_forward : Model -> Ids -> E + Hidden.
(** [embedding_repr.last_hidden_state[0, :-1, :].squeeze().detach().cpu().numpy()]. *)
Variable to_numpy : Hidden -> E + Array.
(** The constructor of [ProteinEmbedding], which validates the array
    against the sequence and may raise. *)
Variable ProteinEmbedding : Array -> string -> E + PEmbedding.
(** [str(sequence)] on a sequence record. *)
Variable str_of_sequence : Sequence -> string.

Definition load_protein_t5_embedding
    (sequence model_name tokenizer_name : string) : traced E PEmbedding :=
  tokenizer <~ traced_call (TokenizerFromPretrained tokenizer_name)
                 (T5Tokenizer_from_pretrained tokenizer_name) ;;
  model <~ traced_call (ModelFromPretrained model_name)
             (T5EncoderModel_from_pretrained model_name) ;;
  ids <~ traced_call (BatchEncodePlus (seqs sequence))
           (batch_encode_plus tokenizer (seqs sequence)) ;;
  embedding_repr <~ traced_call ModelForward (model_forward model ids) ;;
  emb <~ traced_op (to_numpy embedding_repr) ;;
  traced_op (ProteinEmbedding emb sequence).

(** ** [to_embeddings]

    A generator function: calling it runs no code of the body and returns
    a generator object.  The object is either suspended in the loop, with
    the sequences it has not visited yet ([tqdm] hands the elements of its
    argument through in order), or finished: it finishes when the loop
    runs out and when an exception escapes the body. *)
Inductive generator :=
  | Suspended (pending : list Sequence) (model_name tokenizer_name : string)
  | Finished.

Definition gen_pending (g : generator) : list Sequence :=
  match g with
  | Suspended pending _ _ => pending
  | Finished => []
  end.

Definition to_embeddings (sequences : list Sequence)
    (model_name tokenizer_name : string) : generator :=
  Suspended sequences model_name tokenizer_name.

(** [next(g)]: runs the loop up to the next [yield]. *)
Definition next (g : generator)
    : outcome E PEmbedding * generator * list call :=
  match g with
  | Finished => (StopIteration, Finished, [])
  | Suspended [] _ _ => (StopIteration, Finished, [])
  | Suspended (sequence :: rest) model_name tokenizer_name =>
      let test_embed :=
        load_protein_t5_embedding (str_of_sequence sequence)
          model_name tokenizer_name in
      match test_embed.1 with
      | inl e => (Raise e, Finished, test_embed.2)
      | inr pe => (Yield pe, Suspended rest model_name tokenizer_name,
                   test_embed.2)
      end
  end.

(** [k] successive calls of [next], each one caught: what each call did,
    the generator afterwards and all external calls made. *)
Fixpoint next_times (k : nat) (g : generator)
    : list (outcome E PEmbedding) * generator * list call :=
  match k with
  | 0 => ([], g, [])
  | S k' =>
      let step := next g in
      let later := next_times k' step.1.2 in
      (step.1.1 :: later.1.1, later.1.2, step.2 ++ later.2)
  end.

End Embeddings.

(** The number of [from_pretrained] calls in a log. *)
Definition is_from_pretrained (c : call) : bool :=
  match c with
  | TokenizerFromPretrained _ | ModelFromPretrained _ => true
  | _ => false
  end.

Definition count_from_pretrained (calls : list call) : nat :=
  length (filter (fun c => is_from_pretrained c = true) calls).

(** ** [align]

    Raising is a left result.  A name used in the body is looked up in the
    module namespace when the line is run; an unbound name raises
    [NameError]. *)
Inductive exn (E : Type) :=
  | NameError (name : string)
  | Raised (e : E).
Arguments NameError {E} name.
Arguments Raised {E} e.

Section Align.

Context {E Sequence AlignModel Pred Msa : Type}.

Variable str_of_sequence : Sequence -> string.
(** [model.align(a, b)]. *)
Variable model_align : AlignModel -> string -> string -> E + Pred.
(** Calling the object bound to a global name with one argument, for a
    result that unpacks into two values. *)
Variable call_global : string -> Pred -> E + (string * string).
(** [TabularMSA(sequences, index)]. *)
Variable TabularMSA : list Sequence -> list string -> E + Msa.

Definition align (names : gset string) (x y : Sequence) (model : AlignModel)
    : exn E + Msa :=
  match model_align model (str_of_sequence x) (str_of_sequence y) with
  | inl e => inl (Raised e)
  | inr pred_alignment =>
      if decide ("states2alignent" ∈ names) then
        match call_global "states2alignent" pred_alignment with
        | inl e => inl (Raised e)
        | inr (x_align, y_align) =>
            match TabularMSA [x; y] [x_align; y_align] with
            | inl e => inl (Raised e)
            | inr path => inr path
            end
        end
      else inl (NameError "states2alignent")
  end.

End Align.

(** The names bound at the top level of the notebook: by its [import]
    statements, its [def]s and its assignments. *)
Definition notebook_names : gset string :=
  list_to_set
    ["find_spec"; "skbio";
     "get_sequence"; "pack_sequences"; "revstate_f";
     "ProteinEmbedding"; "ProteinVector";
     "T5Tokenizer"; "T5EncoderModel"; "TabularMSA"; "load_model";
     "Protein"; "plt"; "emb"; "read"; "tqdm"; "pd"; "np"; "torch"; "re";
     "load_protein_t5_embedding"; "to_embeddings"; "load_vectors";
     "condense_cigar"; "tm_to_cigar"; "align";
     "model_name"; "tokenizer_name"; "sequence_list"; "embed_list";
     "vec_generator"; "ord_results"; "df"; "common_ids"].

(** ** Vocabulary of the further properties *)

Definition is_digit (a : ascii) : bool :=
  match Ascii.is_nat a with
  | Some _ => true
  | None => false
  end.

Definition no_digit (a : ascii) : bool := negb (is_digit a).

(** The last character of the string [String c s]. *)
Fixpoint last_char (c : ascii) (s : string) : ascii :=
  match s with
  | EmptyString => c
  | String a s' => last_char a s'
  end.

(** Some character of [s] satisfies [p]. *)
Definition some_char (p : ascii -> bool) (s : string) : bool :=
  existsb p (Py.chars s).

Definition not_space (a : ascii) : bool := negb (Ascii.eqb a " "%char).

Definition not_UZOB (a : ascii) : bool := negb (is_UZOB a).

(** * Properties *)

(** ** Strings *)

Lemma append_nil_r (s : string) : s +:+ "" = s.
Proof. induction s as [|a s IH]; simpl; [done | by rewrite IH]. Qed.

Lemma append_assoc (s t u : string) : (s +:+ t) +:+ u = s +:+ (t +:+ u).
Proof. induction s as [|a s IH]; simpl; [done | by rewrite IH]. Qed.

Lemma length_append (s t : string) :
  String.length (s +:+ t) = String.length s + String.length t.
Proof. induction s as [|a s IH]; simpl; [done | by rewrite IH]. Qed.

Lemma index_append_length (p : string) (a : ascii) (t : string) :
  Py.index (p +:+ String a t) (String.length p) = String a "".
Proof.
  unfold Py.index. induction p as [|b p IH]; simpl.
  - by destruct t.
  - exact IH.
Qed.

Lemma length_copies n c : String.length (copies n c) = n.
Proof. induction n as [|n IH]; simpl; [done | by rewrite IH]. Qed.

Lemma copies_snoc n c : copies n c +:+ String c "" = copies (S n) c.
Proof. induction n as [|n IH]; simpl; [done | by rewrite IH]. Qed.

Lemma eqb_char_string (a c : ascii) :
  String.eqb (String a "") (String c "") = Ascii.eqb a c.
Proof. simpl. by destruct (Ascii.eqb a c). Qed.

(** ** The index loop walks the string *)

Lemma condense_body_char p a t v :
  condense_body (p +:+ String a t) v (String.length p) = condense_char v a.
Proof.
  unfold condense_body, condense_char. by rewrite index_append_length.
Qed.

Lemma condense_loop_rest t : forall p v,
  foldl (condense_body (p +:+ t)) v (seq (String.length p) (String.length t))
  = condense_rest v t.
Proof.
  induction t as [|a t IH]; intros p v; simpl; [done|].
  rewrite condense_body_char.
  specialize (IH (p +:+ String a "") (condense_char v a)).
  rewrite append_assoc, length_append in IH. simpl in IH.
  by rewrite Nat.add_1_r in IH.
Qed.

Lemma condense_cigar_rest s :
  condense_cigar s = condense_finish (condense_rest cigar_init s).
Proof.
  unfold condense_cigar, Py.range. f_equal.
  exact (condense_loop_rest s "" cigar_init).
Qed.

(** ** The loop emits the runs of its input *)

Lemma condense_rest_runs t : forall c n acc,
  0 < n ->
  condense_finish
    (condense_rest
       {| condensed_cigar := acc; current_state := String c ""; count := n |} t)
  = acc +:+ render (runs_from c n t).
Proof.
  induction t as [|a t IH]; intros c n acc Hn; simpl.
  - unfold condense_finish, render_token. simpl. by rewrite append_nil_r.
  - unfold condense_char. simpl current_state. simpl count.
    rewrite eqb_char_string. destruct (Ascii.eqb a c) eqn:E.
    + rewrite Nat.add_1_r. apply IH. lia.
    + destruct (Nat.ltb_spec 0 n) as [_|?]; [|lia].
      simpl condensed_cigar. rewrite IH by lia.
      rewrite append_assoc. done.
Qed.

Lemma condense_cigar_runs c s :
  condense_cigar (String c s) = render (runs (String c s)).
Proof.
  rewrite condense_cigar_rest. simpl.
  change (condense_char cigar_init c)
    with {| condensed_cigar := ""; current_state := String c ""; count := 1 |}.
  rewrite condense_rest_runs by lia. done.
Qed.

(** ** Runs *)

Lemma runs_from_head c n s :
  exists m ts, runs_from c n s = (m, c) :: ts.
Proof.
  revert n. induction s as [|a s IH]; intros n; simpl; [by eauto|].
  destruct (Ascii.eqb a c); [apply IH | by eauto].
Qed.

Lemma runs_from_counts c n s :
  1 <= n -> Forall (fun t : token => 1 <= t.1) (runs_from c n s).
Proof.
  revert c n. induction s as [|a s IH]; intros c n Hn; simpl.
  - by repeat constructor.
  - destruct (Ascii.eqb a c); [apply IH; lia|].
    constructor; [done | apply IH; lia].
Qed.

Lemma runs_from_alternating c n s : alternating (runs_from c n s).
Proof.
  revert c n. induction s as [|a s IH]; intros c n; simpl; [done|].
  destruct (Ascii.eqb_spec a c) as [->|Hne]; [apply IH|].
  destruct (runs_from_head a 1 s) as (m & ts & E).
  specialize (IH a 1). rewrite E in *. simpl. split; [congruence | exact IH].
Qed.

Lemma runs_from_total c n s :
  total_count (runs_from c n s) = n + String.length s.
Proof.
  revert c n. induction s as [|a s IH]; intros c n; simpl; [lia|].
  destruct (Ascii.eqb a c); [rewrite IH; lia|].
  simpl. rewrite IH. lia.
Qed.

Lemma runs_from_expand c n s :
  expand_tokens (runs_from c n s) = copies n c +:+ s.
Proof.
  revert c n. induction s as [|a s IH]; intros c n; simpl; [done|].
  destruct (Ascii.eqb_spec a c) as [->|Hne].
  - rewrite IH, <- copies_snoc, append_assoc. done.
  - simpl. by rewrite IH.
Qed.

Lemma runs_from_symbols (p : ascii -> bool) c n s :
  p c = true -> all_chars p s = true ->
  Forall (fun t : token => p t.2 = true) (runs_from c n s).
Proof.
  unfold all_chars, Py.chars.
  revert c n. induction s as [|a s IH]; intros c n Hc Hs; simpl.
  - by repeat constructor.
  - simpl in Hs. apply andb_true_iff in Hs as [Ha Hs].
    destruct (Ascii.eqb a c); [by apply IH|].
    constructor; [done | by apply IH].
Qed.

(** ** Reading back a decimal count *)

Lemma to_uint_nonnil n : Nat.to_uint n <> Decimal.Nil.
Proof.
  rewrite <- (Unsigned.of_to n) at 1. rewrite Unsigned.to_of.
  apply unorm_nonnil.
Qed.

Lemma expand_from_digits d : forall acc rest,
  expand_from (Some acc) (NilEmpty.string_of_uint d +:+ rest)
  = expand_from (Some (Nat.of_uint_acc d acc)) rest.
Proof.
  induction d as [|d IH|d IH|d IH|d IH|d IH|d IH|d IH|d IH|d IH|d IH];
    intros acc rest; simpl; [done|..];
    rewrite IH, Nat.tail_mul_spec; do 3 f_equal; lia.
Qed.

Lemma expand_from_numeral d rest :
  d <> Decimal.Nil ->
  expand_from None (NilEmpty.string_of_uint d +:+ rest)
  = expand_from (Some (Nat.of_uint d)) rest.
Proof.
  intros Hd. unfold Nat.of_uint.
  destruct d; [done|..]; simpl; by rewrite expand_from_digits.
Qed.

Lemma expand_from_str n rest :
  expand_from None (Py.str n +:+ rest) = expand_from (Some n) rest.
Proof.
  unfold Py.str. rewrite expand_from_numeral by apply to_uint_nonnil.
  by rewrite Unsigned.of_to.
Qed.

Lemma expand_from_token n c rest :
  Ascii.is_nat c = None ->
  expand_from None (render_token (n, c) +:+ rest)
  = String.append (copies n c) <$> expand_from None rest.
Proof.
  intros Hc. unfold render_token. simpl.
  rewrite append_assoc, expand_from_str. simpl. by rewrite Hc.
Qed.

Lemma expand_cigar_render ts :
  Forall (fun t : token => Ascii.is_nat t.2 = None) ts ->
  expand_cigar (render ts) = Some (expand_tokens ts).
Proof.
  unfold expand_cigar. induction 1 as [|[n c] ts Hc _ IH]; simpl; [done|].
  rewrite expand_from_token by done. by rewrite IH.
Qed.

Lemma cigar_symbol_not_digit a :
  is_cigar_symbol a = true -> Ascii.is_nat a = None.
Proof.
  unfold is_cigar_symbol. intros H.
  repeat (apply orb_true_iff in H as [H|H]);
    apply Ascii.eqb_eq in H; by subst.
Qed.

(** ** The character map *)

Lemma tm_body_char cigar a : tm_body cigar a = cigar +:+ tm_char a.
Proof.
  unfold tm_body, tm_char.
  repeat (case (Ascii.eqb a _); [done|]). by rewrite append_nil_r.
Qed.

Lemma tm_loop_map s : forall cigar,
  foldl tm_body cigar (Py.chars s) = cigar +:+ tm_map s.
Proof.
  induction s as [|a s IH]; intros cigar; simpl.
  - by rewrite append_nil_r.
  - by rewrite IH, tm_body_char, append_assoc.
Qed.

Lemma tm_to_cigar_map s condensed : tm_to_cigar s condensed = tm_map s.
Proof. unfold tm_to_cigar. by rewrite tm_loop_map. Qed.

Lemma tm_map_append s t : tm_map (s +:+ t) = tm_map s +:+ tm_map t.
Proof.
  induction s as [|a s IH]; simpl; [done|]. by rewrite IH, append_assoc.
Qed.

Lemma tm_char_unrecognized a : is_tm_state a = false -> tm_char a = "".
Proof.
  unfold is_tm_state, tm_char. intros H.
  repeat (apply orb_false_iff in H as [H ?]).
  by repeat match goal with E : Ascii.eqb _ _ = false |- _ => rewrite E; clear E end.
Qed.

Lemma tm_char_recognized a :
  is_tm_state a = true ->
  exists b, tm_char a = String b "" /\
    (a = ":"%char -> b = "M"%char) /\
    (a = "1"%char -> b = "I"%char) /\
    (a = "2"%char -> b = "D"%char).
Proof.
  unfold is_tm_state, tm_char. intros H.
  repeat (apply orb_true_iff in H as [H|H]);
    apply Ascii.eqb_eq in H; subst a; simpl;
    eexists; (split; [reflexivity|]); repeat split; by intros [=].
Qed.

Lemma tm_map_keep s : tm_map (keep is_tm_state s) = tm_map s.
Proof.
  induction s as [|a s IH]; simpl; [done|].
  destruct (is_tm_state a) eqn:E; simpl; rewrite IH; [done|].
  by rewrite tm_char_unrecognized.
Qed.

Lemma tm_map_pointwise s :
  all_chars is_tm_state s = true ->
  String.length (tm_map s) = String.length s /\
  forall i a, String.get i s = Some a ->
    exists b, String.get i (tm_map s) = Some b /\ tm_char a = String b "".
Proof.
  unfold all_chars, Py.chars. induction s as [|a s IH]; simpl; intros Hs.
  - split; [done | by intros]. 
  - apply andb_true_iff in Hs as [Ha Hs]. destruct (IH Hs) as [Hlen Hget].
    destruct (tm_char_recognized a Ha) as (b & Hb & _). rewrite Hb. simpl.
    split; [by rewrite Hlen|].
    intros [|i] a' Hi; simpl in *.
    + injection Hi as <-. eauto.
    + by apply Hget.
Qed.

(** ** Expansion on concrete strings *)

Example expand_cigar_3M4I : expand_cigar "3M4I" = Some "MMMIIII".
Proof. reflexivity. Qed.

Example expand_cigar_two_digits :
  expand_cigar (condense_cigar "MMMMMMMMMMMMDD") = Some "MMMMMMMMMMMMDD".
Proof. reflexivity. Qed.

(** A count without a symbol, or a symbol without a count, is not a
    sequence of tokens. *)
Example expand_cigar_no_symbol : expand_cigar "0" = None.
Proof. reflexivity. Qed.

Example expand_cigar_no_count : expand_cigar "3MI" = None.
Proof. reflexivity. Qed.

(** * Properties of the helpers *)

(** C1. For every non-empty string over the alphabet M, I, D, expanding the
    output of [condense_cigar] (each count-symbol token replaced by that
    many repetitions of its symbol) gives back the input string. *)
Theorem condense_cigar_expand (s : string) :
  s <> "" ->
  all_chars is_cigar_symbol s = true ->
  expand_cigar (condense_cigar s) = Some s.
Proof.
  intros Hne Hs. destruct s as [|c s]; [done|].
  unfold all_chars in Hs. simpl in Hs. apply andb_true_iff in Hs as [Hc Hs].
  rewrite condense_cigar_runs. simpl runs.
  rewrite expand_cigar_render.
  - by rewrite runs_from_expand.
  - eapply Forall_impl; [by apply (runs_from_symbols is_cigar_symbol)|].
    intros t. apply cigar_symbol_not_digit.
Qed.

Lemma condense_cigar_expand_witness :
  expand_cigar (condense_cigar "MMMIIIIDMM") = Some "MMMIIIIDMM".
Proof.
  apply (condense_cigar_expand "MMMIIIIDMM"); [discriminate | reflexivity].
Defined.

(** C2. On the empty string [condense_cigar] returns one token, made of the
    initial counter [0] and the initial (empty) state: the string "0", not
    the empty string. *)
Theorem condense_cigar_empty :
  condense_cigar "" = "0" /\
  condense_cigar "" = Py.str (count cigar_init) +:+ current_state cigar_init /\
  condense_cigar "" <> "".
Proof. by repeat split. Qed.

(** C3. On a string made only of the characters [:], [1] and [2],
    [tm_to_cigar] sends every [:] to [M], every [1] to [I] and every [2] to
    [D], position by position, and the output is as long as the input. *)
Theorem tm_to_cigar_recognized (s : string) (condensed : bool) :
  all_chars is_tm_state s = true ->
  String.length (tm_to_cigar s condensed) = String.length s /\
  forall i,
    (String.get i s = Some ":"%char ->
     String.get i (tm_to_cigar s condensed) = Some "M"%char) /\
    (String.get i s = Some "1"%char ->
     String.get i (tm_to_cigar s condensed) = Some "I"%char) /\
    (String.get i s = Some "2"%char ->
     String.get i (tm_to_cigar s condensed) = Some "D"%char).
Proof.
  intros Hs. rewrite tm_to_cigar_map.
  destruct (tm_map_pointwise s Hs) as [Hlen Hget]. split; [done|].
  intros i; repeat split; intros Hi;
    destruct (Hget _ _ Hi) as (b & -> & Hb); by injection Hb as <-.
Qed.

Lemma tm_to_cigar_recognized_witness :
  String.length (tm_to_cigar ":12:" false) = 4 /\
  String.get 1 (tm_to_cigar ":12:" false) = Some "I"%char.
Proof.
  destruct (tm_to_cigar_recognized ":12:" false) as [Hlen Hget];
    [reflexivity|].
  split; [exact Hlen|]. apply (Hget 1). reflexivity.
Defined.

(** C4. A character outside [:], [1], [2] contributes nothing to the output
    of [tm_to_cigar]: the result is the same with that character removed,
    and the same as for the input with all such characters removed. *)
Theorem tm_to_cigar_drops_unrecognized :
  (forall p a t condensed,
     is_tm_state a = false ->
     tm_to_cigar (p +:+ String a t) condensed = tm_to_cigar (p +:+ t) condensed)
  /\
  (forall s condensed,
     tm_to_cigar s condensed = tm_to_cigar (keep is_tm_state s) condensed).
Proof.
  split.
  - intros p a t condensed Ha. rewrite !tm_to_cigar_map, !tm_map_append.
    simpl. by rewrite tm_char_unrecognized.
  - intros s condensed. by rewrite !tm_to_cigar_map, tm_map_keep.
Qed.

Lemma tm_to_cigar_drops_unrecognized_witness :
  tm_to_cigar ":x1" false = tm_to_cigar ":1" false.
Proof.
  apply (proj1 tm_to_cigar_drops_unrecognized ":" "x"%char "1" false).
  reflexivity.
Defined.

(** C5. [condense_cigar "MMMIIII"] is ["3M4I"]. *)
Theorem condense_cigar_MMMIIII : condense_cigar "MMMIIII" = "3M4I".
Proof. reflexivity. Qed.

(** C6. [tm_to_cigar "::::11112222"] is ["MMMMIIIIDDDD"], which
    [condense_cigar] turns into ["4M4I4D"]. *)
Theorem tm_to_cigar_then_condense (condensed : bool) :
  tm_to_cigar "::::11112222" condensed = "MMMMIIIIDDDD" /\
  condense_cigar (tm_to_cigar "::::11112222" condensed) = "4M4I4D".
Proof. split; reflexivity. Qed.

(** C7. [tm_to_cigar] treats each character on its own: the image of a
    concatenation is the concatenation of the images. *)
Theorem tm_to_cigar_append (s t : string) (condensed : bool) :
  tm_to_cigar (s +:+ t) condensed
  = tm_to_cigar s condensed +:+ tm_to_cigar t condensed.
Proof. rewrite !tm_to_cigar_map. apply tm_map_append. Qed.

Lemma protein_vectors_returns {E Vector Sequence PVector : Type}
    (ProteinVector : Vector -> Sequence -> E + PVector)
    (vectors : list Vector) : forall (sequence_list : list Sequence),
  (forall i vector sequence,
     vectors !! i = Some vector ->
     sequence_list !! i = Some sequence ->
     exists pv, ProteinVector vector sequence = inr pv) ->
  exists pvs, protein_vectors ProteinVector vectors sequence_list = inr pvs.
Proof.
  induction vectors as [|v vectors IH]; intros [|s sequence_list] Hacc;
    simpl; eauto.
  destruct (Hacc 0 v s eq_refl eq_refl) as [pv ->].
  destruct (IH sequence_list) as [pvs ->]; [|by eauto].
  intros i v' s' Hv Hs. exact (Hacc (S i) v' s' Hv Hs).
Qed.

Lemma protein_vectors_paired {E Vector Sequence PVector : Type}
    (ProteinVector : Vector -> Sequence -> E + PVector)
    (vectors : list Vector) : forall (sequence_list : list Sequence) pvs,
  protein_vectors ProteinVector vectors sequence_list = inr pvs ->
  length pvs = min (length vectors) (length sequence_list) /\
  forall i vector sequence,
    vectors !! i = Some vector ->
    sequence_list !! i = Some sequence ->
    exists pv, ProteinVector vector sequence = inr pv /\ pvs !! i = Some pv.
Proof.
  induction vectors as [|v vectors IH]; intros [|s sequence_list] pvs;
    simpl; try (intros [= <-]; by split).
  destruct (ProteinVector v s) as [e|pv] eqn:Hpv; [done|].
  destruct (protein_vectors _ vectors sequence_list) as [e|pvs'] eqn:Hrest;
    [done|].
  intros [= <-]. destruct (IH _ _ Hrest) as [Hlen Hget]. split.
  - simpl. by rewrite Hlen.
  - intros [|i] v' s' Hv Hs; simpl in *.
    + injection Hv as <-. injection Hs as <-. eauto.
    + by apply Hget.
Qed.

(** C8. [load_vectors] pairs the items stored under ['embeddings'] with
    the sequence records by position: whatever list it returns has as many
    elements as the shorter of the two, and its i-th element is the
    [ProteinVector] built from the i-th vector and the i-th sequence.  It
    returns such a list whenever the constructor accepts every positional
    pair, whatever the two lengths are. *)
Theorem load_vectors_by_position {E Vector Sequence PVector : Type}
    (ProteinVector : Vector -> Sequence -> E + PVector)
    (np_load : string -> E + gmap string (ndarray Vector))
    (file_path : string) (data : gmap string (ndarray Vector))
    (vectors : list Vector) (sequence_list : list Sequence) :
  np_load file_path = inr data ->
  data !! "embeddings" = Some (Items vectors) ->
  (forall pvs,
     load_vectors ProteinVector np_load file_path sequence_list = inr pvs ->
     length pvs = min (length vectors) (length sequence_list) /\
     forall i vector sequence,
       vectors !! i = Some vector ->
       sequence_list !! i = Some sequence ->
       exists pv,
         ProteinVector vector sequence = inr pv /\ pvs !! i = Some pv) /\
  ((forall i vector sequence,
      vectors !! i = Some vector ->
      sequence_list !! i = Some sequence ->
      exists pv, ProteinVector vector sequence = inr pv) ->
   exists pvs,
     load_vectors ProteinVector np_load file_path sequence_list = inr pvs).
Proof.
  intros Hload Hfield. unfold load_vectors. rewrite Hload, Hfield. split.
  - apply protein_vectors_paired.
  - apply protein_vectors_returns.
Qed.

Lemma load_vectors_by_position_witness :
  exists pvs : list (list nat * string),
    load_vectors
      (fun (v : list nat) (s : string) =>
         if bool_decide (v = []) then inl "ValueError" else inr (v, s))
      (fun _ => inr {["embeddings" := Items [[1; 2]; [3; 4]; [5; 6]]]})
      "outputs/pdb_hits_output.npz" ["MKV"; "MRV"]
    = inr pvs /\
    length pvs = 2 /\
    pvs !! 1 = Some ([3; 4], "MRV").
Proof.
  pose proof (load_vectors_by_position (E := string)
           (fun (v : list nat) (s : string) =>
              if bool_decide (v = []) then inl "ValueError" else inr (v, s))
           (fun _ => inr {["embeddings" := Items [[1; 2]; [3; 4]; [5; 6]]]})
           "outputs/pdb_hits_output.npz"
           {["embeddings" := Items [[1; 2]; [3; 4]; [5; 6]]]}
           [[1; 2]; [3; 4]; [5; 6]] ["MKV"; "MRV"]
           eq_refl eq_refl) as [Hpaired Hreturns].
  destruct Hreturns as [pvs Hpvs].
  { intros [|[|[|i]]] v s Hv Hs; simpl in *; try discriminate;
      injection Hv as <-; eexists; reflexivity. }
  exists pvs. split; [exact Hpvs|].
  destruct (Hpaired pvs Hpvs) as [Hlen Hget]. split; [exact Hlen|].
  destruct (Hget 1 [3; 4] "MRV" eq_refl eq_refl) as (pv & Hpv & Hi).
  simpl in Hpv. injection Hpv as <-. exact Hi.
Defined.

(** C9. The keyword parameter [condensed] does not influence the result of
    [tm_to_cigar]. *)
Theorem tm_to_cigar_condensed_unused (s : string) :
  tm_to_cigar s true = tm_to_cigar s false.
Proof. reflexivity. Qed.

(** C10. On a non-empty string the output of [condense_cigar] is a sequence
    of count-symbol tokens whose counts are all at least 1, whose
    neighbouring tokens carry different symbols, and whose counts add up to
    the length of the input. *)
Theorem condense_cigar_tokens (s : string) :
  s <> "" ->
  exists ts : list token,
    condense_cigar s = render ts /\
    Forall (fun t : token => 1 <= t.1) ts /\
    alternating ts /\
    total_count ts = String.length s.
Proof.
  intros Hne. destruct s as [|c s]; [done|].
  exists (runs (String c s)). split; [apply condense_cigar_runs|].
  simpl. split; [by apply runs_from_counts|].
  split; [apply runs_from_alternating|].
  by rewrite runs_from_total.
Qed.

Lemma condense_cigar_tokens_witness :
  exists ts : list token,
    condense_cigar "MMMIIII" = render ts /\
    Forall (fun t : token => 1 <= t.1) ts /\
    alternating ts /\
    total_count ts = 7.
Proof.
  apply (condense_cigar_tokens "MMMIIII"). discriminate.
Defined.

(** * Further properties *)

(** ** Helper facts *)

Lemma no_digit_is_nat a : no_digit a = true -> Ascii.is_nat a = None.
Proof. unfold no_digit, is_digit. by destruct (Ascii.is_nat a). Qed.

Lemma all_chars_append p s t :
  all_chars p (s +:+ t) = all_chars p s && all_chars p t.
Proof.
  unfold all_chars, Py.chars.
  induction s as [|a s IH]; simpl; [done|]. by rewrite IH, andb_assoc.
Qed.

Lemma all_chars_copies p n c : p c = true -> all_chars p (copies n c) = true.
Proof.
  intros Hc. unfold all_chars, Py.chars.
  induction n as [|n IH]; simpl; [done|]. by rewrite Hc, IH.
Qed.

Lemma expand_from_no_digit s : forall acc r,
  expand_from acc s = Some r -> all_chars no_digit r = true.
Proof.
  induction s as [|a s IH]; intros acc r; simpl.
  - destruct acc; [done|]. by intros [= <-].
  - destruct (Ascii.is_nat a) eqn:Ha; [by apply IH|].
    destruct acc as [n|]; [|done].
    destruct (expand_from None s) as [r'|] eqn:Hr; simpl; [|done].
    intros [= <-]. rewrite all_chars_append, (IH _ _ Hr), andb_true_r.
    apply all_chars_copies. unfold no_digit, is_digit. by rewrite Ha.
Qed.

Lemma condense_cigar_expand_no_digit c s :
  all_chars no_digit (String c s) = true ->
  expand_cigar (condense_cigar (String c s)) = Some (String c s).
Proof.
  intros Hs. unfold all_chars in Hs. simpl in Hs.
  apply andb_true_iff in Hs as [Hc Hs].
  rewrite condense_cigar_runs. simpl runs. rewrite expand_cigar_render.
  - by rewrite runs_from_expand.
  - eapply Forall_impl; [by apply (runs_from_symbols no_digit)|].
    intros t. apply no_digit_is_nat.
Qed.

Lemma render_app ts us : render (ts ++ us) = render ts +:+ render us.
Proof.
  induction ts as [|t ts IH]; simpl; [done|]. by rewrite IH, append_assoc.
Qed.

Lemma runs_from_append s : forall c n a t,
  last_char c s <> a ->
  runs_from c n (s +:+ String a t) = runs_from c n s ++ runs_from a 1 t.
Proof.
  induction s as [|b s IH]; intros c n a t Hne; simpl in *.
  - by destruct (Ascii.eqb_spec a c) as [->|_].
  - destruct (Ascii.eqb_spec b c) as [->|_]; [by apply IH|].
    simpl. f_equal. by apply IH.
Qed.

Lemma runs_from_copies m : forall c n,
  runs_from c n (copies m c) = [(n + m, c)].
Proof.
  induction m as [|m IH]; intros c n; simpl.
  - by rewrite Nat.add_0_r.
  - rewrite Ascii.eqb_refl, IH. do 2 f_equal. lia.
Qed.

(** The decimal numeral of [n] has at least one digit and, from 1 on, at
    most [n] digits. *)
Lemma length_string_of_uint d :
  String.length (NilEmpty.string_of_uint d) = Decimal.nb_digits d.
Proof. induction d; simpl; by rewrite ?IHd. Qed.

Lemma nb_digits_succ d :
  1 <= Decimal.nb_digits (Decimal.Little.succ d) <= S (Decimal.nb_digits d).
Proof. induction d; simpl; lia. Qed.

Lemma nb_digits_to_lu n :
  1 <= Decimal.nb_digits (Unsigned.to_lu n) <= Nat.max 1 n.
Proof.
  induction n as [|n IH]; [simpl; lia|].
  rewrite Unsigned.to_lu_succ.
  pose proof (nb_digits_succ (Unsigned.to_lu n)) as H.
  destruct n as [|n]; [simpl; lia|]. lia.
Qed.

Lemma length_str n : 1 <= String.length (Py.str n) <= Nat.max 1 n.
Proof.
  unfold Py.str.
  rewrite length_string_of_uint, Unsigned.to_uint_alt, nb_digits_rev.
  apply nb_digits_to_lu.
Qed.

Lemma length_render_runs_from s : forall c n,
  1 <= n ->
  2 <= String.length (render (runs_from c n s)) <= 2 * (n + String.length s).
Proof.
  induction s as [|a s IH]; intros c n Hn; simpl.
  - unfold render_token. rewrite !length_append. simpl.
    pose proof (length_str n). lia.
  - destruct (Ascii.eqb a c).
    + specialize (IH c (S n)). lia.
    + simpl. unfold render_token. rewrite !length_append. simpl.
      pose proof (length_str n). specialize (IH a 1). lia.
Qed.

(** ** [condense_cigar] *)

(** X1. For a non-empty input, expanding the output of [condense_cigar]
    gives back the input exactly when the input contains no decimal digit:
    the alphabet need not be M, I, D, and a digit used as a symbol makes
    the condensed string unreadable. *)
Theorem condense_cigar_expand_iff (s : string) :
  s <> "" ->
  (expand_cigar (condense_cigar s) = Some s <-> all_chars no_digit s = true).
Proof.
  intros Hne. destruct s as [|c s]; [done|]. split.
  - apply expand_from_no_digit.
  - apply condense_cigar_expand_no_digit.
Qed.

Lemma condense_cigar_expand_iff_witness :
  expand_cigar (condense_cigar "==XX=") = Some "==XX=" <->
  all_chars no_digit "==XX=" = true.
Proof. apply (condense_cigar_expand_iff "==XX="). discriminate. Defined.

(** X2. On strings without decimal digits, the empty string included,
    [condense_cigar] is injective: different inputs have different
    condensed forms. *)
Theorem condense_cigar_injective (s t : string) :
  all_chars no_digit s = true ->
  all_chars no_digit t = true ->
  condense_cigar s = condense_cigar t ->
  s = t.
Proof.
  intros Hs Ht E.
  destruct s as [|c s], t as [|d t]; [done|..].
  - apply condense_cigar_expand_no_digit in Ht. by rewrite <- E in Ht.
  - apply condense_cigar_expand_no_digit in Hs. by rewrite E in Hs.
  - apply condense_cigar_expand_no_digit in Hs, Ht.
    rewrite E in Hs. congruence.
Qed.

Lemma condense_cigar_injective_witness : "MMI" = "MMI".
Proof.
  apply (condense_cigar_injective "MMI" "MMI"); reflexivity.
Defined.

(** X3. Without that restriction [condense_cigar] is not injective: a
    digit used as a symbol is read as part of the next count. *)
Theorem condense_cigar_not_injective :
  exists s t : string, s <> t /\ condense_cigar s = condense_cigar t.
Proof.
  exists "1M", (copies 111 "M"). split; [discriminate | reflexivity].
Qed.

(** X4. The output of [condense_cigar] is never empty; for a non-empty
    input it has at least two characters and at most twice as many as the
    input. *)
Theorem condense_cigar_length (s : string) :
  1 <= String.length (condense_cigar s) /\
  (s <> "" ->
   2 <= String.length (condense_cigar s) <= 2 * String.length s).
Proof.
  destruct s as [|c s].
  - split; [simpl; lia | done].
  - rewrite condense_cigar_runs. simpl runs.
    pose proof (length_render_runs_from s c 1 ltac:(lia)) as H.
    simpl String.length. split; [lia | intros _; lia].
Qed.

Lemma condense_cigar_length_witness :
  2 <= String.length (condense_cigar "MID") <= 2 * String.length "MID".
Proof. apply (condense_cigar_length "MID"). discriminate. Defined.

(** X5. When the last character of [u] differs from the first character of
    [v], both non-empty, condensing the concatenation is the same as
    concatenating the condensed parts. *)
Theorem condense_cigar_concat (c : ascii) (s : string) (a : ascii) (t : string) :
  last_char c s <> a ->
  condense_cigar (String c s +:+ String a t)
  = condense_cigar (String c s) +:+ condense_cigar (String a t).
Proof.
  intros Hne.
  change (String c s +:+ String a t) with (String c (s +:+ String a t)).
  rewrite !condense_cigar_runs. simpl runs.
  by rewrite runs_from_append, render_app.
Qed.

Lemma condense_cigar_concat_witness :
  condense_cigar ("MMI" +:+ "DDM") = condense_cigar "MMI" +:+ condense_cigar "DDM".
Proof.
  apply (condense_cigar_concat "M" "MI" "D" "DM"). discriminate.
Defined.

(** X6. A string made of [n >= 1] copies of one symbol condenses to the
    single token [n] followed by the symbol. *)
Theorem condense_cigar_single_run (n : nat) (c : ascii) :
  1 <= n ->
  condense_cigar (copies n c) = Py.str n +:+ String c "".
Proof.
  intros Hn. destruct n as [|n]; [lia|]. simpl copies.
  rewrite condense_cigar_runs. simpl runs. rewrite runs_from_copies.
  simpl. unfold render_token. simpl. by rewrite append_nil_r.
Qed.

Lemma condense_cigar_single_run_witness :
  condense_cigar (copies 12 "M") = Py.str 12 +:+ "M".
Proof. apply (condense_cigar_single_run 12 "M"). lia. Defined.

(** ** [tm_to_cigar] *)

Lemma is_tm_state_cases a :
  is_tm_state a = true -> a = ":"%char \/ a = "1"%char \/ a = "2"%char.
Proof.
  unfold is_tm_state. intros H.
  repeat (apply orb_true_iff in H as [H|H]);
    apply Ascii.eqb_eq in H; auto.
Qed.

Lemma tm_char_inj a b :
  is_tm_state a = true -> is_tm_state b = true ->
  tm_char a = tm_char b -> a = b.
Proof.
  intros Ha Hb.
  destruct (is_tm_state_cases a Ha) as [->|[->| ->]];
    destruct (is_tm_state_cases b Hb) as [->|[->| ->]];
    by intros [=].
Qed.

Lemma tm_char_cigar a : all_chars is_cigar_symbol (tm_char a) = true.
Proof. unfold tm_char. by repeat case (Ascii.eqb a _). Qed.

Lemma tm_map_cigar s : all_chars is_cigar_symbol (tm_map s) = true.
Proof.
  induction s as [|a s IH]; simpl; [done|].
  by rewrite all_chars_append, tm_char_cigar, IH.
Qed.

Lemma length_tm_map s :
  String.length (tm_map s) = String.length (keep is_tm_state s).
Proof.
  induction s as [|a s IH]; simpl; [done|].
  rewrite length_append, IH. destruct (is_tm_state a) eqn:Ha.
  - by destruct (tm_char_recognized a Ha) as (b & -> & _).
  - by rewrite tm_char_unrecognized.
Qed.

Lemma length_keep p s : String.length (keep p s) <= String.length s.
Proof.
  induction s as [|a s IH]; simpl; [done|]. destruct (p a); simpl; lia.
Qed.

Lemma tm_map_empty_iff s : tm_map s = "" <-> some_char is_tm_state s = false.
Proof.
  unfold some_char, Py.chars. induction s as [|a s IH]; simpl; [done|].
  destruct (is_tm_state a) eqn:Ha; simpl.
  - destruct (tm_char_recognized a Ha) as (b & -> & _). by split.
  - by rewrite tm_char_unrecognized.
Qed.

Lemma cigar_symbol_no_digit s :
  all_chars is_cigar_symbol s = true -> all_chars no_digit s = true.
Proof.
  unfold all_chars, Py.chars. induction s as [|a s IH]; simpl; [done|].
  intros [Ha Hs]%andb_true_iff. rewrite IH by done.
  unfold no_digit, is_digit. by rewrite (cigar_symbol_not_digit a Ha).
Qed.

(** X7. Whatever the input, the output of [tm_to_cigar] contains only the
    symbols M, I and D. *)
Theorem tm_to_cigar_alphabet (s : string) (condensed : bool) :
  all_chars is_cigar_symbol (tm_to_cigar s condensed) = true.
Proof. rewrite tm_to_cigar_map. apply tm_map_cigar. Qed.

(** X8. The output of [tm_to_cigar] has one character for each recognized
    character of the input, so it is never longer than the input. *)
Theorem tm_to_cigar_length (s : string) (condensed : bool) :
  String.length (tm_to_cigar s condensed)
    = String.length (keep is_tm_state s) /\
  String.length (tm_to_cigar s condensed) <= String.length s.
Proof.
  rewrite tm_to_cigar_map, length_tm_map. split; [done | apply length_keep].
Qed.

(** X9. On strings over [:], [1], [2], [tm_to_cigar] is injective: the
    alignment string can be recovered from its CIGAR string. *)
Theorem tm_to_cigar_injective (s t : string) (condensed : bool) :
  all_chars is_tm_state s = true ->
  all_chars is_tm_state t = true ->
  tm_to_cigar s condensed = tm_to_cigar t condensed ->
  s = t.
Proof.
  rewrite !tm_to_cigar_map. unfold all_chars, Py.chars.
  revert t. induction s as [|a s IH]; intros [|b t]; simpl; try done.
  - intros _ [Hb _]%andb_true_iff.
    by destruct (tm_char_recognized b Hb) as (? & -> & _).
  - intros [Ha _]%andb_true_iff _.
    by destruct (tm_char_recognized a Ha) as (? & -> & _).
  - intros [Ha Hs]%andb_true_iff [Hb Ht]%andb_true_iff E.
    destruct (tm_char_recognized a Ha) as (a' & Ea & _).
    destruct (tm_char_recognized b Hb) as (b' & Eb & _).
    rewrite Ea, Eb in E. simpl in E. injection E as E1 E2.
    f_equal; [|by apply IH].
    apply tm_char_inj; try done. by rewrite Ea, Eb, E1.
Qed.

Lemma tm_to_cigar_injective_witness : ":12" = ":12".
Proof.
  apply (tm_to_cigar_injective ":12" ":12" false); reflexivity.
Defined.

(** X10. If the alignment string has at least one recognized character,
    the CIGAR string produced by [tm_to_cigar] survives condensing:
    expanding [condense_cigar] of it gives it back. *)
Theorem tm_to_cigar_condense_expand (s : string) (condensed : bool) :
  some_char is_tm_state s = true ->
  expand_cigar (condense_cigar (tm_to_cigar s condensed))
  = Some (tm_to_cigar s condensed).
Proof.
  intros Hs. rewrite tm_to_cigar_map.
  pose proof (cigar_symbol_no_digit _ (tm_map_cigar s)) as Hd.
  destruct (tm_map s) as [|c r] eqn:Hm.
  - apply tm_map_empty_iff in Hm. congruence.
  - by apply condense_cigar_expand_no_digit.
Qed.

Lemma tm_to_cigar_condense_expand_witness :
  expand_cigar (condense_cigar (tm_to_cigar "::x:12 2" false))
  = Some (tm_to_cigar "::x:12 2" false).
Proof.
  apply (tm_to_cigar_condense_expand "::x:12 2" false). reflexivity.
Defined.

(** X11. Condensing the output of [tm_to_cigar] gives the zero-count
    string "0" exactly when the alignment string has no recognized
    character (in particular when it is empty). *)
Theorem tm_to_cigar_condense_zero (s : string) (condensed : bool) :
  condense_cigar (tm_to_cigar s condensed) = "0"
  <-> some_char is_tm_state s = false.
Proof.
  rewrite tm_to_cigar_map, <- tm_map_empty_iff. split.
  - intros E. destruct (tm_map s) as [|c r] eqn:Hm; [done|].
    rewrite condense_cigar_runs in E. simpl runs in E.
    pose proof (length_render_runs_from r c 1 ltac:(lia)) as H.
    rewrite E in H. simpl in H. lia.
  - by intros ->.
Qed.

Lemma tm_map_of_cigar r :
  all_chars is_cigar_symbol r = true -> tm_map r = "".
Proof.
  unfold all_chars, Py.chars. induction r as [|a r IH]; simpl; [done|].
  intros [Ha Hr]%andb_true_iff. rewrite IH by done.
  unfold is_cigar_symbol in Ha.
  repeat (apply orb_true_iff in Ha as [Ha|Ha]);
    apply Ascii.eqb_eq in Ha; by subst a.
Qed.

(** X19. The output alphabet of [tm_to_cigar] is disjoint from its input
    alphabet: applied to one of its own outputs, [tm_to_cigar] returns the
    empty string. *)
Theorem tm_to_cigar_twice (s : string) (condensed condensed' : bool) :
  tm_to_cigar (tm_to_cigar s condensed) condensed' = "".
Proof.
  rewrite (tm_to_cigar_map (tm_to_cigar s condensed)), tm_to_cigar_map.
  apply tm_map_of_cigar, tm_map_cigar.
Qed.

(** ** [load_vectors] *)

Lemma protein_vectors_first_rejected {E Vector Sequence PVector : Type}
    (ProteinVector : Vector -> Sequence -> E + PVector)
    (vectors : list Vector) : forall (sequence_list : list Sequence) i v s e,
  vectors !! i = Some v ->
  sequence_list !! i = Some s ->
  ProteinVector v s = inl e ->
  (forall j v' s',
     j < i -> vectors !! j = Some v' -> sequence_list !! j = Some s' ->
     exists pv, ProteinVector v' s' = inr pv) ->
  protein_vectors ProteinVector vectors sequence_list = inl (External e).
Proof.
  induction vectors as [|v0 vectors IH];
    intros [|s0 sequence_list] i v s e Hv Hs He Hbefore; try done.
  destruct i as [|i]; simpl in *.
  - injection Hv as <-. injection Hs as <-. by rewrite He.
  - destruct (Hbefore 0 v0 s0 ltac:(lia) eq_refl eq_refl) as [pv ->].
    rewrite (IH sequence_list i v s e); try done.
    intros j v' s' Hj. apply (Hbefore (S j)). lia.
Qed.

Lemma protein_vectors_project {E Vector Sequence PVector A : Type}
    (ProteinVector : Vector -> Sequence -> E + PVector)
    (g : PVector -> A) (h : Vector -> Sequence -> A)
    (vectors : list Vector) : forall (sequence_list : list Sequence) pvs,
  (forall v s pv, ProteinVector v s = inr pv -> g pv = h v s) ->
  protein_vectors ProteinVector vectors sequence_list = inr pvs ->
  g <$> pvs = zip_with h vectors sequence_list.
Proof.
  intros sequence_list pvs Hg. revert sequence_list pvs.
  induction vectors as [|v vectors IH]; intros [|s sequence_list] pvs;
    simpl; try (by intros [= <-]).
  destruct (ProteinVector v s) as [e|pv] eqn:Hpv; [done|].
  destruct (protein_vectors _ vectors sequence_list) as [e|pvs'] eqn:Hrest;
    [done|].
  intros [= <-]. rewrite fmap_cons. f_equal; [by apply Hg | by apply IH].
Qed.

Lemma zip_with_fst_take {A B} (l : list A) (k : list B) :
  zip_with (fun x _ => x) l k = take (length k) l.
Proof.
  revert k. induction l as [|x l IH]; intros [|y k]; simpl; try done.
  by rewrite IH.
Qed.

Lemma zip_with_snd_take {A B} (l : list A) (k : list B) :
  zip_with (fun _ y => y) l k = take (length l) k.
Proof.
  revert k. induction l as [|x l IH]; intros [|y k]; simpl; try done.
  by rewrite IH.
Qed.

(** X12. [load_vectors] raises the exception of [np.load] when the archive
    cannot be loaded, [KeyError] when the archive has no ['embeddings']
    field, the [TypeError] of iterating a 0-dimensional array when the
    stored array has no axis, and, when the constructor rejects a
    positional pair after accepting all pairs before it, the exception of
    that constructor call: no list is returned and the pairs after it play
    no part. *)
Theorem load_vectors_raises {E Vector Sequence PVector : Type}
    (ProteinVector : Vector -> Sequence -> E + PVector)
    (np_load : string -> E + gmap string (ndarray Vector))
    (file_path : string) (sequence_list : list Sequence) :
  (forall e,
     np_load file_path = inl e ->
     load_vectors ProteinVector np_load file_path sequence_list
     = inl (External e)) /\
  (forall data,
     np_load file_path = inr data ->
     data !! "embeddings" = None ->
     load_vectors ProteinVector np_load file_path sequence_list
     = inl (KeyError "embeddings")) /\
  (forall data,
     np_load file_path = inr data ->
     data !! "embeddings" = Some ZeroDim ->
     load_vectors ProteinVector np_load file_path sequence_list
     = inl IterationOver0d) /\
  (forall data vectors i vector sequence e,
     np_load file_path = inr data ->
     data !! "embeddings" = Some (Items vectors) ->
     vectors !! i = Some vector ->
     sequence_list !! i = Some sequence ->
     ProteinVector vector sequence = inl e ->
     (forall j v' s',
        j < i -> vectors !! j = Some v' -> sequence_list !! j = Some s' ->
        exists pv, ProteinVector v' s' = inr pv) ->
     load_vectors ProteinVector np_load file_path sequence_list
     = inl (External e)).
Proof.
  unfold load_vectors. repeat split.
  - by intros e ->.
  - by intros data -> ->.
  - by intros data -> ->.
  - intros data vectors i v s e -> -> Hv Hs He Hbefore.
    by apply (protein_vectors_first_rejected _ _ _ i v s).
Qed.

Lemma load_vectors_raises_witness :
  load_vectors
    (fun (v : list nat) (s : string) =>
       if bool_decide (v = []) then inl "ValueError" else inr (v, s))
    (fun _ => inr {["embeddings" := Items [[1; 2]; []; [5; 6]]]})
    "outputs/pdb_hits_output.npz" ["MKV"; "MRV"; "MLV"]
  = inl (External "ValueError").
Proof.
  refine (proj2 (proj2 (proj2 (load_vectors_raises (E := string)
            (fun (v : list nat) (s : string) =>
               if bool_decide (v = []) then inl "ValueError" else inr (v, s))
            (fun _ => inr {["embeddings" := Items [[1; 2]; []; [5; 6]]]})
            "outputs/pdb_hits_output.npz" ["MKV"; "MRV"; "MLV"])))
            {["embeddings" := Items [[1; 2]; []; [5; 6]]]}
            [[1; 2]; []; [5; 6]] 1 [] "MRV" "ValueError"
            eq_refl eq_refl eq_refl eq_refl eq_refl _).
  intros [|j] v' s' Hj Hv Hs; [|lia]. simpl in *.
  injection Hv as <-. eexists. reflexivity.
Defined.

(** X13. When the objects built by [ProteinVector] keep the two arguments
    they were built from, and the constructor accepts every positional
    pair, the list returned by [load_vectors] gives back the stored vectors
    cut to the number of sequences and the sequence list cut to the number
    of stored vectors: the surplus on either side is dropped without
    notice. *)
Theorem load_vectors_recover {E Vector Sequence PVector : Type}
    (ProteinVector : Vector -> Sequence -> E + PVector)
    (vector_of : PVector -> Vector) (sequence_of : PVector -> Sequence)
    (np_load : string -> E + gmap string (ndarray Vector))
    (file_path : string) (data : gmap string (ndarray Vector))
    (vectors : list Vector) (sequence_list : list Sequence) :
  (forall v s pv,
     ProteinVector v s = inr pv -> vector_of pv = v /\ sequence_of pv = s) ->
  np_load file_path = inr data ->
  data !! "embeddings" = Some (Items vectors) ->
  (forall i vector sequence,
     vectors !! i = Some vector ->
     sequence_list !! i = Some sequence ->
     exists pv, ProteinVector vector sequence = inr pv) ->
  exists pvs,
    load_vectors ProteinVector np_load file_path sequence_list = inr pvs /\
    vector_of <$> pvs = take (length sequence_list) vectors /\
    sequence_of <$> pvs = take (length vectors) sequence_list.
Proof.
  intros Hproj Hload Hfield Hacc. unfold load_vectors.
  rewrite Hload, Hfield.
  destruct (protein_vectors_returns ProteinVector vectors sequence_list Hacc)
    as [pvs Hpvs].
  exists pvs. split; [done|]. split.
  - rewrite <- zip_with_fst_take.
    apply (protein_vectors_project ProteinVector); [|done].
    intros v s pv Hpv. by destruct (Hproj v s pv Hpv).
  - rewrite <- zip_with_snd_take.
    apply (protein_vectors_project ProteinVector); [|done].
    intros v s pv Hpv. by destruct (Hproj v s pv Hpv).
Qed.

Lemma load_vectors_recover_witness :
  exists pvs : list (list nat * string),
    load_vectors
      (fun (v : list nat) (s : string) =>
         if bool_decide (v = []) then inl "ValueError" else inr (v, s))
      (fun _ => inr {["embeddings" := Items [[1; 2]; [3; 4]; [5; 6]]]})
      "outputs/pdb_hits_output.npz" ["MKV"; "MRV"]
    = inr pvs /\
    fst <$> pvs = [[1; 2]; [3; 4]] /\
    snd <$> pvs = ["MKV"; "MRV"].
Proof.
  apply (load_vectors_recover (E := string)
           (fun (v : list nat) (s : string) =>
              if bool_decide (v = []) then inl "ValueError" else inr (v, s))
           fst snd
           (fun _ => inr {["embeddings" := Items [[1; 2]; [3; 4]; [5; 6]]]})
           "outputs/pdb_hits_output.npz"
           {["embeddings" := Items [[1; 2]; [3; 4]; [5; 6]]]}
           [[1; 2]; [3; 4]; [5; 6]] ["MKV"; "MRV"]);
    [|reflexivity|reflexivity|].
  - intros v s pv. destruct v; simpl; [discriminate|].
    intros H. injection H as <-. split; reflexivity.
  - intros [|[|[|i]]] v s Hv Hs; simpl in *; try discriminate;
      injection Hv as <-; eexists; reflexivity.
Defined.

(** ** The tokenizer input built by [load_protein_t5_embedding] *)

Lemma join_space_one a : join " " (list_of_string (String a "")) = String a "".
Proof. reflexivity. Qed.

Lemma join_space_cons a b t :
  join " " (list_of_string (String a (String b t)))
  = String a (String " " (join " " (list_of_string (String b t)))).
Proof. reflexivity. Qed.

Lemma spaced_layout t : forall a,
  String.length (join " " (list_of_string (String a t)))
    = 2 * String.length t + 1 /\
  (forall i, String.get (2 * i) (join " " (list_of_string (String a t)))
             = String.get i (String a t)) /\
  (forall i, i < String.length t ->
             String.get (2 * i + 1) (join " " (list_of_string (String a t)))
             = Some " "%char).
Proof.
  induction t as [|b t IH]; intros a.
  - rewrite join_space_one. repeat split.
    + intros [|i]; [done|].
      replace (2 * S i) with (S (S (2 * i))) by lia. done.
    + simpl. lia.
  - rewrite join_space_cons. destruct (IH b) as (Hlen & Heven & Hodd).
    repeat split.
    + simpl String.length in *. lia.
    + intros [|i]; [done|].
      replace (2 * S i) with (S (S (2 * i))) by lia. simpl. apply Heven.
    + intros [|i] Hi; [done|].
      replace (2 * S i + 1) with (S (S (2 * i + 1))) by lia.
      simpl in *. apply Hodd. lia.
Qed.

Lemma length_re_sub s : String.length (re_sub_UZOB_X s) = String.length s.
Proof. induction s as [|a s IH]; simpl; [done | by rewrite IH]. Qed.

Lemma get_re_sub s : forall i,
  String.get i (re_sub_UZOB_X s)
  = (fun a => if is_UZOB a then "X"%char else a) <$> String.get i s.
Proof.
  induction s as [|a s IH]; intros [|i]; simpl; done.
Qed.

Lemma re_sub_not_UZOB s : all_chars not_UZOB (re_sub_UZOB_X s) = true.
Proof.
  unfold all_chars, Py.chars. induction s as [|a s IH]; simpl; [done|].
  rewrite IH, andb_true_r. unfold not_UZOB. by destruct (is_UZOB a) eqn:E; [|rewrite E].
Qed.

Lemma re_sub_id s : all_chars not_UZOB s = true -> re_sub_UZOB_X s = s.
Proof.
  unfold all_chars, Py.chars, not_UZOB.
  induction s as [|a s IH]; simpl; [done|].
  intros [Ha Hs]%andb_true_iff. rewrite IH by done.
  by destruct (is_UZOB a).
Qed.

Lemma re_sub_not_space s :
  all_chars not_space s = true -> all_chars not_space (re_sub_UZOB_X s) = true.
Proof.
  unfold all_chars, Py.chars. induction s as [|a s IH]; simpl; [done|].
  intros [Ha Hs]%andb_true_iff. rewrite IH, andb_true_r by done.
  destruct (is_UZOB a); [reflexivity | done].
Qed.

Lemma all_chars_spaced p t :
  p " "%char = true -> all_chars p t = true ->
  all_chars p (join " " (list_of_string t)) = true.
Proof.
  intros Hsp. destruct t as [|a t]; [done|]. revert a.
  unfold all_chars, Py.chars in *.
  induction t as [|b t IH]; intros a Ht.
  - by rewrite join_space_one.
  - rewrite join_space_cons. simpl in *.
    apply andb_true_iff in Ht as [Ha Ht]. rewrite Ha, Hsp. simpl.
    by apply IH.
Qed.

Lemma keep_not_space_spaced t :
  all_chars not_space t = true ->
  keep not_space (join " " (list_of_string t)) = t.
Proof.
  destruct t as [|a t]; [done|]. revert a.
  unfold all_chars, Py.chars in *.
  induction t as [|b t IH]; intros a Ht.
  - rewrite join_space_one. simpl in *.
    apply andb_true_iff in Ht as [-> _]. done.
  - rewrite join_space_cons. simpl in Ht.
    apply andb_true_iff in Ht as [Ha Ht].
    simpl keep at 1. rewrite Ha. simpl keep at 1.
    change (not_space " ") with false. cbv iota. f_equal. by apply IH.
Qed.

(** X14. The list given to the tokenizer has exactly one string, of length
    [2 * len(sequence) - 1]: its even positions hold the residues of the
    sequence in order, with U, Z, O and B turned into X, and its odd
    positions hold single spaces. *)
Theorem seqs_layout (sequence : string) :
  exists f,
    seqs sequence = [f] /\
    String.length f = 2 * String.length sequence - 1 /\
    (forall i a,
       String.get i sequence = Some a ->
       String.get (2 * i) f = Some (if is_UZOB a then "X"%char else a)) /\
    (forall i,
       S i < String.length sequence ->
       String.get (2 * i + 1) f = Some " "%char).
Proof.
  eexists. split; [reflexivity|].
  destruct sequence as [|a s].
  - repeat split; [by intros [|i] | simpl; lia].
  - destruct (spaced_layout (re_sub_UZOB_X s)
                (if is_UZOB a then "X"%char else a)) as (Hlen & Heven & Hodd).
    change (re_sub_UZOB_X (String a s))
      with (String (if is_UZOB a then "X"%char else a) (re_sub_UZOB_X s)).
    rewrite length_re_sub in *. repeat split.
    + rewrite Hlen. simpl String.length. lia.
    + intros i b Hi. rewrite Heven.
      change (String (if is_UZOB a then "X"%char else a) (re_sub_UZOB_X s))
        with (re_sub_UZOB_X (String a s)).
      by rewrite get_re_sub, Hi.
    + intros i Hi. apply Hodd. simpl in Hi. lia.
Qed.

(** X15. No string given to the tokenizer contains U, Z, O or B. *)
Theorem seqs_no_UZOB (sequence : string) :
  Forall (fun f => all_chars not_UZOB f = true) (seqs sequence).
Proof.
  repeat constructor. apply all_chars_spaced; [done|].
  apply re_sub_not_UZOB.
Qed.

(** X16. For a sequence without spaces, removing the spaces from the
    string given to the tokenizer leaves the sequence with U, Z, O, B
    replaced by X; for a sequence that has none of these four letters
    either, it leaves the sequence itself. *)
Theorem seqs_remove_spaces (sequence : string) :
  all_chars not_space sequence = true ->
  (keep not_space <$> seqs sequence = [re_sub_UZOB_X sequence]) /\
  (all_chars not_UZOB sequence = true ->
   keep not_space <$> seqs sequence = [sequence]).
Proof.
  intros Hsp.
  assert (keep not_space <$> seqs sequence = [re_sub_UZOB_X sequence]) as E.
  { simpl. f_equal. by apply keep_not_space_spaced, re_sub_not_space. }
  split; [done|]. intros HU. by rewrite E, re_sub_id.
Qed.

Lemma seqs_remove_spaces_witness :
  keep not_space <$> seqs "MKUB" = ["MKXX"] /\
  keep not_space <$> seqs "MKLV" = ["MKLV"].
Proof.
  split.
  - apply (seqs_remove_spaces "MKUB"). reflexivity.
  - apply (seqs_remove_spaces "MKLV"); reflexivity.
Defined.

(** ** [to_embeddings] *)

Lemma count_from_pretrained_app l1 l2 :
  count_from_pretrained (l1 ++ l2)
  = count_from_pretrained l1 + count_from_pretrained l2.
Proof. unfold count_from_pretrained. by rewrite filter_app, length_app. Qed.

Section EmbeddingsFacts.

Context {E Tokenizer Model Ids Hidden Array PEmbedding Sequence : Type}.
Variable T5Tokenizer_from_pretrained : string -> E + Tokenizer.
Variable T5EncoderModel_from_pretrained : string -> E + Model.
Variable batch_encode_plus : Tokenizer -> list string -> E + Ids.
Variable model_forward : Model -> Ids -> E + Hidden.
Variable to_numpy : Hidden -> E + Array.
Variable ProteinEmbedding : Array -> string -> E + PEmbedding.
Variable str_of_sequence : Sequence -> string.

#[local] Abbreviation embed_one :=
  (load_protein_t5_embedding T5Tokenizer_from_pretrained
     T5EncoderModel_from_pretrained batch_encode_plus model_forward
     to_numpy ProteinEmbedding).
#[local] Abbreviation next_1 :=
  (next T5Tokenizer_from_pretrained T5EncoderModel_from_pretrained
     batch_encode_plus model_forward to_numpy ProteinEmbedding
     str_of_sequence).
#[local] Abbreviation next_k :=
  (next_times T5Tokenizer_from_pretrained T5EncoderModel_from_pretrained
     batch_encode_plus model_forward to_numpy ProteinEmbedding
     str_of_sequence).

(** A call that returns has made the four logged calls, in order. *)
Lemma embed_one_calls sequence model_name tokenizer_name pe :
  (embed_one sequence model_name tokenizer_name).1 = inr pe ->
  (embed_one sequence model_name tokenizer_name).2
  = [TokenizerFromPretrained tokenizer_name; ModelFromPretrained model_name;
     BatchEncodePlus (seqs sequence); ModelForward].
Proof.
  unfold load_protein_t5_embedding, traced_bind, traced_call, traced_op.
  simpl.
  destruct (T5Tokenizer_from_pretrained tokenizer_name) as [?|tok];
    simpl; [done|].
  destruct (T5EncoderModel_from_pretrained model_name) as [?|mdl];
    simpl; [done|].
  destruct (batch_encode_plus tok (seqs sequence)) as [?|ids]; simpl; [done|].
  destruct (model_forward mdl ids) as [?|h]; simpl; [done|].
  destruct (to_numpy h) as [?|arr]; simpl; [done|]. done.
Qed.

Lemma next_times_S k g :
  next_k (S k) g
  = ((next_1 g).1.1 :: (next_k k (next_1 g).1.2).1.1,
     (next_k k (next_1 g).1.2).1.2,
     (next_1 g).2 ++ (next_k k (next_1 g).1.2).2).
Proof. reflexivity. Qed.

Lemma next_times_finished m :
  next_k m Finished = (replicate m StopIteration, Finished, []).
Proof.
  induction m as [|m IH]; [done|]. rewrite next_times_S. simpl.
  by rewrite IH.
Qed.

Lemma next_times_exhausted m model_name tokenizer_name :
  (next_k m (Suspended [] model_name tokenizer_name)).1.1
    = replicate m StopIteration /\
  gen_pending (next_k m (Suspended [] model_name tokenizer_name)).1.2 = [] /\
  (next_k m (Suspended [] model_name tokenizer_name)).2 = [].
Proof.
  destruct m as [|m]; [done|]. rewrite next_times_S. simpl.
  by rewrite next_times_finished.
Qed.

Lemma next_times_yields model_name tokenizer_name good embeddings :
  Forall2 (fun sequence pe =>
             (embed_one (str_of_sequence sequence) model_name tokenizer_name).1
             = inr pe) good embeddings ->
  forall k rest,
    next_k (length good + k) (Suspended (good ++ rest) model_name tokenizer_name)
    = ((Yield <$> embeddings)
         ++ (next_k k (Suspended rest model_name tokenizer_name)).1.1,
       (next_k k (Suspended rest model_name tokenizer_name)).1.2,
       concat ((fun sequence =>
                  (embed_one (str_of_sequence sequence)
                     model_name tokenizer_name).2) <$> good)
         ++ (next_k k (Suspended rest model_name tokenizer_name)).2).
Proof.
  induction 1 as [|s pe good embeddings Hs _ IH]; intros k rest.
  - simpl. by destruct (next_k k _) as [[??]?].
  - change (length (s :: good) + k) with (S (length good + k)).
    rewrite next_times_S. simpl next. rewrite Hs. simpl.
    rewrite IH. simpl. by rewrite app_assoc.
Qed.

Lemma count_from_pretrained_yields model_name tokenizer_name good embeddings :
  Forall2 (fun sequence pe =>
             (embed_one (str_of_sequence sequence) model_name tokenizer_name).1
             = inr pe) good embeddings ->
  count_from_pretrained
    (concat ((fun sequence =>
                (embed_one (str_of_sequence sequence)
                   model_name tokenizer_name).2) <$> good))
  = 2 * length good.
Proof.
  induction 1 as [|s pe good embeddings Hs _ IH]; [done|].
  rewrite fmap_cons. simpl concat.
  rewrite count_from_pretrained_app, IH, (embed_one_calls _ _ _ _ Hs).
  simpl length. unfold count_from_pretrained. simpl. lia.
Qed.

(** X17. If the first [k] sequences embed without an exception, [k]
    successive calls of [next] on a fresh [to_embeddings] generator yield
    their embeddings, in order, and [StopIteration] for every call beyond
    the last sequence; the sequences not yet reached stay pending, and
    the tokenizer and the model have been loaded once for every sequence
    reached, none in advance. *)
Theorem to_embeddings_next_times (sequences : list Sequence)
    (model_name tokenizer_name : string) (k : nat)
    (embeddings : list PEmbedding) :
  Forall2 (fun sequence pe =>
             (embed_one (str_of_sequence sequence) model_name tokenizer_name).1
             = inr pe) (take k sequences) embeddings ->
  (next_k k (to_embeddings sequences model_name tokenizer_name)).1.1
    = (Yield <$> embeddings)
      ++ replicate (k - length sequences) StopIteration /\
  gen_pending (next_k k (to_embeddings sequences model_name tokenizer_name)).1.2
    = drop k sequences /\
  count_from_pretrained
    (next_k k (to_embeddings sequences model_name tokenizer_name)).2
    = 2 * Nat.min k (length sequences).
Proof.
  intros Hok. unfold to_embeddings.
  pose proof (next_times_yields _ _ _ _ Hok
                (k - length (take k sequences)) (drop k sequences)) as Hk.
  pose proof (count_from_pretrained_yields _ _ _ _ Hok) as Hc.
  rewrite take_drop in Hk. rewrite length_take in Hk, Hc.
  replace (k `min` length sequences + (k - k `min` length sequences))
    with k in Hk by lia.
  rewrite Hk. simpl. rewrite count_from_pretrained_app, Hc.
  destruct (decide (k <= length sequences)) as [Hle|Hgt].
  - replace (k - k `min` length sequences) with 0 by lia.
    replace (k - length sequences) with 0 by lia. simpl. repeat split.
    change (count_from_pretrained []) with 0. lia.
  - rewrite drop_ge by lia.
    destruct (next_times_exhausted (k - k `min` length sequences)
                model_name tokenizer_name) as (-> & -> & ->).
    replace (k - k `min` length sequences) with (k - length sequences) by lia.
    repeat split. change (count_from_pretrained []) with 0. lia.
Qed.


End EmbeddingsFacts.

Lemma to_embeddings_next_times_witness :
  (next_times (E := string)
     (fun _ => inr tt) (fun _ => inr tt) (fun _ _ => inr tt)
     (fun _ _ => inr tt) (fun _ => inr tt)
     (fun (_ : unit) (s : string) =>
        if String.length s =? 1 then inl "ValueError" else inr s)
     id 3 (to_embeddings ["MKV"; "ML"] "model" "tokenizer")).1.1
  = [Yield "MKV"; Yield "ML"; StopIteration].
Proof.
  refine (proj1 (to_embeddings_next_times (E := string)
            (fun _ => inr tt) (fun _ => inr tt) (fun _ _ => inr tt)
            (fun _ _ => inr tt) (fun _ => inr tt)
            (fun (_ : unit) (s : string) =>
               if String.length s =? 1 then inl "ValueError" else inr s)
            id ["MKV"; "ML"] "model" "tokenizer" 3 ["MKV"; "ML"] _)).
  simpl. repeat constructor.
Defined.


(** ** [align] *)

Lemma states2alignent_unbound : "states2alignent" ∉ notebook_names.
Proof.
  unfold notebook_names. rewrite elem_of_list_to_set.
  rewrite list_elem_of_In. simpl. intros H.
  repeat (destruct H as [H|H]; [discriminate H|]). exact H.
Qed.

(** X18. In the namespace of the notebook the name [states2alignent] is
    not bound (provided it is not a builtin): [align] never returns an
    alignment.  Whenever [model.align] returns, the next line raises
    [NameError]. *)
Theorem align_never_returns {E Sequence AlignModel Pred Msa : Type}
    (str_of_sequence : Sequence -> string)
    (model_align : AlignModel -> string -> string -> E + Pred)
    (call_global : string -> Pred -> E + (string * string))
    (TabularMSA : list Sequence -> list string -> E + Msa)
    (builtins : gset string) (x y : Sequence) (model : AlignModel) :
  "states2alignent" ∉ builtins ->
  (forall path,
     align str_of_sequence model_align call_global TabularMSA
       (notebook_names ∪ builtins) x y model <> inr path) /\
  (forall pred_alignment,
     model_align model (str_of_sequence x) (str_of_sequence y)
       = inr pred_alignment ->
     align str_of_sequence model_align call_global TabularMSA
       (notebook_names ∪ builtins) x y model
     = inl (NameError "states2alignent")).
Proof.
  intros Hb. unfold align.
  assert ("states2alignent" ∉ notebook_names ∪ builtins) as Hn.
  { rewrite not_elem_of_union. split; [apply states2alignent_unbound | done]. }
  destruct (model_align model _ _) as [e|pred]; [by split|].
  destruct (decide _) as [Hin|_]; [done|]. split; [done|]. by intros _ _.
Qed.

Lemma align_never_returns_witness :
  align (E := string) (Msa := string) id
    (fun (_ : unit) a b => inr (a, b)) (fun _ p => inr p)
    (fun _ _ => inr "msa")
    (notebook_names ∪ {["len"; "str"]}) "MKV" "MRV" tt
  = inl (NameError "states2alignent").
Proof.
  refine (proj2 (align_never_returns (E := string) (Msa := string) id
            (fun (_ : unit) a b => inr (a, b)) (fun _ p => inr p)
            (fun _ _ => inr "msa") {["len"; "str"]} "MKV" "MRV" tt _)
            ("MKV", "MRV") _); [|reflexivity].
  vm_compute. intros H. discriminate H.
Defined.
